(** * react-i18n: the language normalizer and the locale store

    A shallow embedding of [src/index.tsx]: the pure function
    [normalizeLng], the [LocaleProvider] component (its initial state and
    its [setLanguage] callback) and the [useLocale] hook.

    Modelling choices.
    - A JavaScript string is a [string] of 8-bit characters.  Language tags
      are ASCII, so [toLowerCase] and [toUpperCase] are the ASCII case
      mappings: the letters A-Z and a-z are mapped, every other character is
      left as it is.  JavaScript's own mappings are Unicode: they can change
      the length of a string, and lowering an uppercase form need not give
      the lowercase form back.  The theorems below use of [toLowerCase] that
      it is idempotent and that a prefix of a lowered string is lowered;
      whatever else a statement needs of the case mappings is a hypothesis
      of it.
    - [undefined] and [null] are [None].
    - The translation engine ([i18n : any] in the source) is an abstract
      state machine, see [I18n]; its change operation may raise.
    - [localStorage] is a finite map from keys to values; it is [None] on a
      host where [typeof window === 'undefined'].  In the same way the
      [lang] attribute of the document element is [None] on a host without
      a document.
    - React state is updated in place: [setLanguageState norm] makes [norm]
      the current language.
    - In [Store] the storage takes every write; [Quota] has [setLanguage]
      on a storage whose [setItem] may throw. *)

From Stdlib Require Import Ascii String List Bool Lia.
From stdpp Require Import base strings gmap.
Import ListNotations.
Local Open Scope string_scope.

(** ** JavaScript primitives used by the source *)

Module Js.

(** A thrown value: [new Error(message)]. *)
Inductive JsError : Type :=
| Error (message : string).

(** How a call ends: it returns a value or it throws. *)
Inductive completion (A : Type) : Type :=
| Normal (a : A)
| Throw (e : JsError).
Arguments Normal {A} a.
Arguments Throw {A} e.

Definition isUpperChar (c : ascii) : bool :=
  let n := nat_of_ascii c in (65 <=? n)%nat && (n <=? 90)%nat.

Definition isLowerChar (c : ascii) : bool :=
  let n := nat_of_ascii c in (97 <=? n)%nat && (n <=? 122)%nat.

Definition toLowerChar (c : ascii) : ascii :=
  if isUpperChar c then ascii_of_nat (nat_of_ascii c + 32) else c.

Definition toUpperChar (c : ascii) : ascii :=
  if isLowerChar c then ascii_of_nat (nat_of_ascii c - 32) else c.

(** [s.toLowerCase()] *)
Fixpoint toLowerCase (s : string) : string :=
  match s with
  | EmptyString => EmptyString
  | String c s' => String (toLowerChar c) (toLowerCase s')
  end.

(** [s.toUpperCase()] *)
Fixpoint toUpperCase (s : string) : string :=
  match s with
  | EmptyString => EmptyString
  | String c s' => String (toUpperChar c) (toUpperCase s')
  end.

(** The string has a character in A-Z. *)
Fixpoint hasUpper (s : string) : bool :=
  match s with
  | EmptyString => false
  | String c s' => isUpperChar c || hasUpper s'
  end.

(** [str.startsWith(search)] *)
Fixpoint startsWith (str search : string) {struct search} : bool :=
  match search with
  | EmptyString => true
  | String c search' =>
      match str with
      | EmptyString => false
      | String d str' => Ascii.eqb d c && startsWith str' search'
      end
  end.

(** [arr.includes(x)] on an array of strings *)
Definition includes (arr : list string) (x : string) : bool :=
  existsb (String.eqb x) arr.

(** Truthiness of a value of type [string | undefined]: [undefined] and the
    empty string are falsy. *)
Definition truthy (v : option string) : bool :=
  match v with
  | None => false
  | Some EmptyString => false
  | Some (String _ _) => true
  end.

(** [a || b] *)
Definition or_else (a b : option string) : option string :=
  if truthy a then a else b.

End Js.

(** ** The normalizer *)

Module Normalizer.
Import Js.

(** [normalizeLng], lines 19-32.  The [for ... of] loop returns the first
    element of [supported] that [low] starts with. *)
Definition normalizeLng (lng : option string) (supported : list string)
    (fallback : string) : string :=
  match lng with
  | None => fallback
  | Some EmptyString => fallback
  | Some l =>
      let low := toLowerCase l in
      if includes supported low then low
      else
        match find (startsWith low) supported with
        | Some s => s
        | None => fallback
        end
  end.

(** The [return] statement by which a call of [normalizeLng] leaves. *)
Inductive Branch : Type :=
| ViaFalsy      (* line 20: [if (!lng) return fallback] *)
| ViaExact      (* line 24: [return low] *)
| ViaPrefix     (* line 28: [return s] *)
| ViaFallback.  (* line 31: [return fallback] *)

(** [normalizeLng] again, each [return] tagged with the statement it is. *)
Definition normalizeLngVia (lng : option string) (supported : list string)
    (fallback : string) : Branch * string :=
  match lng with
  | None => (ViaFalsy, fallback)
  | Some EmptyString => (ViaFalsy, fallback)
  | Some l =>
      let low := toLowerCase l in
      if includes supported low then (ViaExact, low)
      else
        match find (startsWith low) supported with
        | Some s => (ViaPrefix, s)
        | None => (ViaFallback, fallback)
        end
  end.

Definition isMatchBranch (b : Branch) : bool :=
  match b with
  | ViaExact | ViaPrefix => true
  | ViaFalsy | ViaFallback => false
  end.

(** [pre ++ s :: post] splits [supported] at the first element that [low]
    starts with. *)
Definition FirstPrefix (low : string) (supported : list string) (s : string) : Prop :=
  exists pre post,
    supported = (pre ++ s :: post)%list /\
    startsWith low s = true /\
    Forall (fun p => startsWith low p = false) pre.

End Normalizer.

(** ** The locale store: [LocaleProvider] and [useLocale] *)

Module Store.
Import Js Normalizer.

(** The translation engine, [i18n : any].  The component reads
    [i18n.language] and calls [i18n.changeLanguage(tag)]; the call may
    change the engine and may throw. *)
Record I18n : Type := {
  i18n_state : Type;
  i18n_language : i18n_state -> option string;
  i18n_changeLanguage : string -> i18n_state -> i18n_state * completion unit
}.

(** The configuration props of [LocaleProvider], lines 9-15. *)
Record LocaleProviderProps : Type := {
  supportedLanguages : list string;
  fallbackLanguage : string;
  storageKey : string
}.

(** The default values of the props, lines 37-39. *)
Definition defaultProps : LocaleProviderProps :=
  {| supportedLanguages := ["en"];
     fallbackLanguage := "en";
     storageKey := "language" |}.

(** What the component reaches outside itself. *)
Record Host (E : I18n) : Type := {
  i18n : i18n_state E;
  localStorage : option (gmap string string);
  documentLang : option string
}.
Arguments i18n {E} h.
Arguments localStorage {E} h.
Arguments documentLang {E} h.

(** A mounted provider: the host and the [language] state of [useState]. *)
Record Mounted (E : I18n) : Type := {
  host : Host E;
  language : string
}.
Arguments host {E} m.
Arguments language {E} m.

Section Provider.
Context {E : I18n}.
Variable props : LocaleProviderProps.

(** [localStorage.getItem(storageKey) || undefined] behind the
    [typeof window] test, line 44. *)
Definition persisted (h : Host E) : option string :=
  match localStorage h with
  | Some items => or_else (items !! storageKey props) None
  | None => None
  end.

(** The first argument of [normalizeLng] at line 44. *)
Definition initialHint (h : Host E) : option string :=
  or_else (i18n_language E (i18n h)) (persisted h).

(** [initial], lines 43-47. *)
Definition initial (h : Host E) : string :=
  normalizeLng (initialHint h) (supportedLanguages props) (fallbackLanguage props).

(** [document.documentElement.lang = v] behind the [typeof document] test. *)
Definition setDocumentLang (v : string) (h : Host E) : Host E :=
  {| i18n := i18n h;
     localStorage := localStorage h;
     documentLang := match documentLang h with
                     | Some _ => Some v
                     | None => None
                     end |}.

(** What the specification feeds to the normalizer at construction: the
    engine's active language if present, otherwise the persisted value if
    there is a persistence backend, otherwise absent.  This one follows the
    specification's words; [initialHint] above follows the source. *)
Definition specInitialHint (h : Host E) : option string :=
  if truthy (i18n_language E (i18n h)) then i18n_language E (i18n h)
  else
    match localStorage h with
    | Some items => items !! storageKey props
    | None => None
    end.

(** [localStorage.setItem(storageKey, v)] behind the [typeof window] test. *)
Definition persist (v : string) (h : Host E) : Host E :=
  {| i18n := i18n h;
     localStorage := match localStorage h with
                     | Some items => Some (<[storageKey props := v]> items)
                     | None => None
                     end;
     documentLang := documentLang h |}.

(** The first render of [LocaleProvider]: [useState(initial)] and the
    effect of lines 51-55. *)
Definition mount (h : Host E) : Mounted E :=
  {| host := setDocumentLang (initial h) h;
     language := initial h |}.

(** [setLanguage], lines 57-69. *)
Definition setLanguage (lng : string) (m : Mounted E) : Mounted E * completion unit :=
  let norm := normalizeLng (Some lng) (supportedLanguages props) (fallbackLanguage props) in
  let h := host m in
  match i18n_changeLanguage E norm (i18n h) with
  | (e', Throw err) =>
      ({| host := {| i18n := e';
                     localStorage := localStorage h;
                     documentLang := documentLang h |};
          language := language m |},
       Throw err)
  | (e', Normal _) =>
      let h1 := {| i18n := e';
                   localStorage := localStorage h;
                   documentLang := documentLang h |} in
      ({| host := setDocumentLang norm (persist norm h1);
          language := norm |},
       Normal tt)
  end.

(** A sequence of [setLanguage] calls, each caller going on whether its
    call returned or threw. *)
Fixpoint setLanguages (reqs : list string) (m : Mounted E) : Mounted E :=
  match reqs with
  | [] => m
  | lng :: reqs' => setLanguages reqs' (fst (setLanguage lng m))
  end.

(** The value requested last: the last call's argument, or [hint] (what the
    construction read) when there was no call. *)
Definition lastRequested (hint : option string) (reqs : list string) : option string :=
  List.last (map Some reqs) hint.

(** The value requested last among the calls the engine did not throw on. *)
Fixpoint lastApplied (hint : option string) (reqs : list string) (m : Mounted E)
    : option string :=
  match reqs with
  | [] => hint
  | lng :: reqs' =>
      match setLanguage lng m with
      | (m', Normal _) => lastApplied (Some lng) reqs' m'
      | (m', Throw _) => lastApplied hint reqs' m'
      end
  end.

(** No call of the sequence throws. *)
Fixpoint allReturn (reqs : list string) (m : Mounted E) : bool :=
  match reqs with
  | [] => true
  | lng :: reqs' =>
      match setLanguage lng m with
      | (m', Normal _) => allReturn reqs' m'
      | (_, Throw _) => false
      end
  end.

(** [LocaleContextType], lines 3-7. *)
Record LocaleContextType : Type := {
  ctx_language : string;
  ctx_setLanguage : string -> Mounted E -> Mounted E * completion unit;
  ctx_supportedLanguages : list string
}.

(** [value], lines 71-75. *)
Definition value (m : Mounted E) : LocaleContextType :=
  {| ctx_language := language m;
     ctx_setLanguage := setLanguage;
     ctx_supportedLanguages := supportedLanguages props |}.

End Provider.

Arguments LocaleContextType E : clear implicits.

(** [useContext(LocaleContext)]: [enclosing] lists the values of the
    [LocaleContext.Provider]s around the caller, innermost first; without
    one the hook gives the default of [createContext], [undefined]
    (line 17). *)
Definition useContext {E : I18n} (enclosing : list (LocaleContextType E))
    : option (LocaleContextType E) :=
  match enclosing with
  | [] => None
  | v :: _ => Some v
  end.

(** [useLocale], lines 80-84.  An object is truthy. *)
Definition useLocale {E : I18n} (enclosing : list (LocaleContextType E))
    : completion (LocaleContextType E) :=
  match useContext enclosing with
  | None => Throw (Error "useLocale must be used within LocaleProvider")
  | Some ctx => Normal ctx
  end.

(** Two engines for examples.  [steadyEngine] remembers the tag it was
    given; [pickyEngine] does the same but throws on the tag ["es"]. *)
Definition steadyEngine : I18n :=
  {| i18n_state := option string;
     i18n_language := fun st => st;
     i18n_changeLanguage := fun tag _ => (Some tag, Normal tt) |}.

Definition pickyEngine : I18n :=
  {| i18n_state := option string;
     i18n_language := fun st => st;
     i18n_changeLanguage := fun tag st =>
       if String.eqb tag "es" then (st, Throw (Error "no resources for es"))
       else (Some tag, Normal tt) |}.

Definition threeLanguages : LocaleProviderProps :=
  {| supportedLanguages := ["en"; "es"; "fr"];
     fallbackLanguage := "en";
     storageKey := "language" |}.

(** A browser on its first visit: nothing stored, no [lang] attribute. *)
Definition freshBrowser (E : I18n) (st : i18n_state E) : Host E :=
  {| i18n := st; localStorage := Some ∅; documentLang := Some "" |}.

(** A browser that comes back with [stored] under the key ["language"]. *)
Definition returningBrowser (E : I18n) (st : i18n_state E) (stored : string) : Host E :=
  {| i18n := st;
     localStorage := Some {[ "language" := stored ]};
     documentLang := Some "" |}.

End Store.

(** ** The rest of the component, and devices to observe it *)

Module Observe.
Import Js Normalizer Store.

(** The effect of lines 51-55, as React runs it again after a render in
    which [language] changed. *)
Definition languageEffect {E : I18n} (m : Mounted E) : Mounted E :=
  {| host := setDocumentLang (language m) (host m);
     language := language m |}.

(** [useLocaleContext], line 87: another name of [useLocale]. *)
Definition useLocaleContext {E : I18n} (enclosing : list (LocaleContextType E))
    : completion (LocaleContextType E) :=
  useLocale enclosing.

(** An engine that behaves as [E] does and keeps the list of the tags
    [changeLanguage] was called with, oldest first. *)
Definition recording (E : I18n) : I18n :=
  {| i18n_state := i18n_state E * list string;
     i18n_language := fun st => i18n_language E (fst st);
     i18n_changeLanguage := fun tag st =>
       let (e', c) := i18n_changeLanguage E tag (fst st) in
       ((e', (snd st ++ [tag])%list), c) |}.

(** The calls a recording engine has seen. *)
Definition calls {E : I18n} (st : i18n_state (recording E)) : list string :=
  snd st.

(** The store [m] seen from an earlier store [base], when [applied] is the
    request applied last in between ([None]: none was).  Nothing but the
    current language, the value under the storage key and the [lang]
    attribute differs, and these hold the normalized request. *)
Definition stateAfter {E : I18n} (props : LocaleProviderProps)
    (applied : option string) (base m : Mounted E) : Prop :=
  match applied with
  | None =>
      language m = language base /\
      localStorage (host m) = localStorage (host base) /\
      documentLang (host m) = documentLang (host base)
  | Some lng =>
      let norm := normalizeLng (Some lng) (supportedLanguages props)
                    (fallbackLanguage props) in
      language m = norm /\
      localStorage (host m) =
        (fun items : gmap string string => <[storageKey props := norm]> items)
          <$> localStorage (host base) /\
      documentLang (host m) = (fun _ => norm) <$> documentLang (host base)
  end.

(** A browser in which another part of the page has stored a theme. *)
Definition themedBrowser (E : I18n) (st : i18n_state E) : Host E :=
  {| i18n := st;
     localStorage := Some {[ "theme" := "dark" ]};
     documentLang := Some "" |}.

(** The value stored under [k], on a host with a persistence backend. *)
Definition getItem {E : I18n} (k : string) (h : Host E) : option (option string) :=
  (fun items : gmap string string => items !! k) <$> localStorage h.

End Observe.

(** ** A storage that may refuse a write *)

Module Quota.
Import Js Normalizer Store Observe.

(** The request accepted last by the engine: the engine alone is asked,
    call by call, with the normalized requests. *)
Fixpoint lastAccepted {E : I18n} (props : LocaleProviderProps)
    (accepted : option string) (reqs : list string) (e : i18n_state E)
    : option string :=
  match reqs with
  | [] => accepted
  | lng :: reqs' =>
      match i18n_changeLanguage E
              (normalizeLng (Some lng) (supportedLanguages props)
                 (fallbackLanguage props)) e with
      | (e', Normal _) => lastAccepted props (Some lng) reqs' e'
      | (e', Throw _) => lastAccepted props accepted reqs' e'
      end
  end.

Section Provider.
Context {E : I18n}.

(** [refuses k v items] is the error that [localStorage.setItem(k, v)]
    throws on the storage [items], if it throws (a full quota, a browser
    that blocks storage). *)
Variable refuses : string -> string -> gmap string string -> option JsError.
Variable props : LocaleProviderProps.

(** [localStorage.setItem(k, v)]: a refused write leaves the storage as it
    is. *)
Definition setItem (k v : string) (items : gmap string string)
    : gmap string string * completion unit :=
  match refuses k v items with
  | Some err => (items, Throw err)
  | None => (<[k := v]> items, Normal tt)
  end.

(** [setLanguage], lines 57-69, on such a storage.  [setLanguageState]
    (line 60) has run when [setItem] (line 63) throws; line 67 has not. *)
Definition setLanguage (lng : string) (m : Mounted E) : Mounted E * completion unit :=
  let norm := normalizeLng (Some lng) (supportedLanguages props) (fallbackLanguage props) in
  let h := host m in
  match i18n_changeLanguage E norm (i18n h) with
  | (e', Throw err) =>
      ({| host := {| i18n := e';
                     localStorage := localStorage h;
                     documentLang := documentLang h |};
          language := language m |},
       Throw err)
  | (e', Normal _) =>
      match localStorage h with
      | Some items =>
          match setItem (storageKey props) norm items with
          | (items', Throw err) =>
              ({| host := {| i18n := e';
                             localStorage := Some items';
                             documentLang := documentLang h |};
                  language := norm |},
               Throw err)
          | (items', Normal _) =>
              ({| host := setDocumentLang norm
                            {| i18n := e';
                               localStorage := Some items';
                               documentLang := documentLang h |};
                  language := norm |},
               Normal tt)
          end
      | None =>
          ({| host := setDocumentLang norm
                        {| i18n := e';
                           localStorage := None;
                           documentLang := documentLang h |};
              language := norm |},
           Normal tt)
      end
  end.

(** The render that follows a call: React runs the effect of lines 51-55
    again when [language] is not what it was. *)
Definition rerender (before after : Mounted E) : Mounted E :=
  if String.eqb (language before) (language after) then after
  else languageEffect after.

(** A sequence of calls, each followed by its render. *)
Fixpoint setLanguages (reqs : list string) (m : Mounted E) : Mounted E :=
  match reqs with
  | [] => m
  | lng :: reqs' => setLanguages reqs' (rerender m (fst (setLanguage lng m)))
  end.

End Provider.

(** A storage that takes every write, and one that takes none. *)
Definition neverRefuses (k v : string) (items : gmap string string) : option JsError :=
  None.

Definition alwaysRefuses (k v : string) (items : gmap string string) : option JsError :=
  Some (Error "QuotaExceededError").

End Quota.

(** * Properties *)

(** ** Facts about the JavaScript primitives *)

Module JsFacts.
Import Js.

Ltac each_char c := destruct c as [[] [] [] [] [] [] [] []].

Lemma toLowerChar_idem (c : ascii) : toLowerChar (toLowerChar c) = toLowerChar c.
Proof. each_char c; reflexivity. Qed.

Lemma toLowerChar_upper (c : ascii) : isUpperChar c = true -> toLowerChar c <> c.
Proof. each_char c; cbv; congruence. Qed.

Lemma toLowerChar_not_upper (c : ascii) : isUpperChar c = false -> toLowerChar c = c.
Proof. unfold toLowerChar. intros ->. reflexivity. Qed.

Lemma toLowerCase_idem (s : string) : toLowerCase (toLowerCase s) = toLowerCase s.
Proof.
  induction s as [|c s IH]; simpl; [reflexivity|].
  now rewrite toLowerChar_idem, IH.
Qed.

Lemma toUpperCase_nonempty (s : string) : s <> "" -> toUpperCase s <> "".
Proof. destruct s; simpl; congruence. Qed.

Lemma toLowerCase_nonempty (s : string) : s <> "" -> toLowerCase s <> "".
Proof. destruct s; simpl; congruence. Qed.

(** A string with a letter in A-Z is not its own lowercase form, and
    conversely. *)
Lemma hasUpper_toLowerCase (s : string) :
  hasUpper s = false <-> toLowerCase s = s.
Proof.
  induction s as [|c s IH]; simpl; [tauto|].
  rewrite orb_false_iff. split.
  - intros [Hc Hs]. rewrite (toLowerChar_not_upper c Hc).
    f_equal. now apply IH.
  - intros H. injection H as Hc Hs. split; [|now apply IH].
    destruct (isUpperChar c) eqn:Hu; [|reflexivity].
    now apply toLowerChar_upper in Hu.
Qed.

Lemma startsWith_refl (s : string) : startsWith s s = true.
Proof.
  induction s as [|c s IH]; simpl; [reflexivity|].
  now rewrite Ascii.eqb_refl, IH.
Qed.

Lemma startsWith_empty (s : string) : startsWith "" s = true -> s = "".
Proof. destruct s; simpl; [reflexivity | discriminate]. Qed.

(** [startsWith] is the prefix relation. *)
Lemma startsWith_append (str search : string) :
  startsWith str search = true <-> exists rest, str = String.append search rest.
Proof.
  revert str. induction search as [|c search IH]; intros str; simpl.
  - split; [intros _; now exists str | reflexivity].
  - destruct str as [|d str].
    + split; [discriminate | intros [rest H]; discriminate].
    + rewrite andb_true_iff, Ascii.eqb_eq, IH. split.
      * intros [-> [rest ->]]. now exists rest.
      * intros [rest H]. injection H as -> ->. eauto.
Qed.

(** A prefix of a string without capitals has no capitals. *)
Lemma startsWith_lower (str search : string) :
  toLowerCase str = str -> startsWith str search = true ->
  toLowerCase search = search.
Proof.
  revert str. induction search as [|c search IH]; intros str Hlow Hpre.
  - reflexivity.
  - destruct str as [|d str]; simpl in Hpre; [discriminate|].
    apply andb_true_iff in Hpre as [Hc Hpre].
    apply Ascii.eqb_eq in Hc. subst d.
    simpl in Hlow. injection Hlow as Hc Hs.
    simpl. rewrite Hc. f_equal. now apply (IH str).
Qed.

Lemma includes_In (arr : list string) (x : string) :
  includes arr x = true <-> In x arr.
Proof.
  unfold includes. rewrite existsb_exists. split.
  - intros [y [Hin Heq]]. apply String.eqb_eq in Heq. now subst.
  - intros Hin. exists x. split; [assumption | apply String.eqb_refl].
Qed.

Lemma includes_not_In (arr : list string) (x : string) :
  includes arr x = false <-> ~ In x arr.
Proof.
  rewrite <- includes_In. destruct (includes arr x); split; congruence.
Qed.

Lemma truthy_Some (s : string) : truthy (Some s) = true <-> s <> "".
Proof. destruct s; simpl; split; congruence. Qed.

Lemma or_else_None_r (a : option string) :
  or_else a None = if truthy a then a else None.
Proof. reflexivity. Qed.

End JsFacts.

(** ** The normalizer *)

Module NormalizerSpec.
Import Js Normalizer JsFacts.

(** The equation of [normalizeLng] on a non-empty request. *)
Lemma normalizeLng_nonempty (l : string) (S : list string) (F : string) :
  l <> "" ->
  normalizeLng (Some l) S F =
    if includes S (toLowerCase l) then toLowerCase l
    else match find (startsWith (toLowerCase l)) S with
         | Some s => s
         | None => F
         end.
Proof. destruct l; [congruence | reflexivity]. Qed.

Lemma normalizeLng_absent (S : list string) (F : string) :
  normalizeLng None S F = F.
Proof. reflexivity. Qed.

Lemma normalizeLng_empty (S : list string) (F : string) :
  normalizeLng (Some "") S F = F.
Proof. reflexivity. Qed.

(** A falsy request is treated as an absent one. *)
Lemma normalizeLng_falsy (lng : option string) (S : list string) (F : string) :
  truthy lng = false -> normalizeLng lng S F = F.
Proof. destruct lng as [[|c l]|]; simpl; congruence. Qed.

(** The tagged function computes [normalizeLng]. *)
Lemma normalizeLngVia_snd (lng : option string) (S : list string) (F : string) :
  snd (normalizeLngVia lng S F) = normalizeLng lng S F.
Proof.
  destruct lng as [[|c l]|]; simpl; try reflexivity.
  destruct (includes S _); [reflexivity|].
  destruct (find _ S); reflexivity.
Qed.

(** What each [return] statement gives. *)
Lemma normalizeLngVia_cases (lng : option string) (S : list string) (F : string)
    (b : Branch) (r : string) :
  normalizeLngVia lng S F = (b, r) ->
  match b with
  | ViaFalsy => truthy lng = false /\ r = F
  | ViaExact =>
      exists l, lng = Some l /\ l <> "" /\ r = toLowerCase l /\ In r S
  | ViaPrefix =>
      exists l, lng = Some l /\ l <> "" /\ ~ In (toLowerCase l) S /\
                find (startsWith (toLowerCase l)) S = Some r
  | ViaFallback =>
      exists l, lng = Some l /\ l <> "" /\ ~ In (toLowerCase l) S /\
                find (startsWith (toLowerCase l)) S = None /\ r = F
  end.
Proof.
  destruct lng as [[|c l]|]; simpl.
  - intros [= <- <-]. auto.
  - destruct (includes S _) eqn:Hinc.
    + intros [= <- <-]. exists (String c l).
      repeat split; try congruence. now apply includes_In.
    + apply includes_not_In in Hinc.
      destruct (find _ S) as [s|] eqn:Hfind; intros [= <- <-];
        exists (String c l); repeat split; try congruence; assumption.
  - intros [= <- <-]. auto.
Qed.

(** [find] stops at the first element that passes the test. *)
Lemma find_first {A : Type} (f : A -> bool) (l : list A) (x : A) :
  find f l = Some x ->
  exists pre post, l = (pre ++ x :: post)%list /\ f x = true /\
                   Forall (fun p => f p = false) pre.
Proof.
  induction l as [|a l IH]; simpl; [discriminate|].
  destruct (f a) eqn:Hfa.
  - intros [= ->]. exists [], l. repeat split; [assumption | constructor].
  - intros Hfind. destruct (IH Hfind) as (pre & post & -> & Hx & Hpre).
    exists (a :: pre), post. repeat split; [assumption|].
    now constructor.
Qed.

Lemma find_is_Some {A : Type} (f : A -> bool) (l : list A) :
  (exists x, In x l /\ f x = true) -> exists y, find f l = Some y.
Proof.
  intros (x & Hin & Hfx). destruct (find f l) as [y|] eqn:Hfind; [eauto|].
  rewrite (find_none f l Hfind x Hin) in Hfx. discriminate.
Qed.

(** A non-empty element of the list that is its own lowercase form is
    returned as it is. *)
Lemma normalizeLng_fixed (s : string) (S : list string) (F : string) :
  s <> "" -> toLowerCase s = s -> In s S -> normalizeLng (Some s) S F = s.
Proof.
  intros Hne Hlow Hin. rewrite normalizeLng_nonempty by assumption.
  rewrite Hlow. apply includes_In in Hin. now rewrite Hin.
Qed.

(** The result is the fallback or an element of the supported list. *)
Lemma normalizeLng_member (lng : option string) (S : list string) (F : string) :
  In (normalizeLng lng S F) (F :: S).
Proof.
  rewrite <- normalizeLngVia_snd.
  destruct (normalizeLngVia lng S F) as [b r] eqn:Hvia.
  apply normalizeLngVia_cases in Hvia. simpl. destruct b.
  - left. now destruct Hvia.
  - right. now destruct Hvia as (l & _ & _ & _ & Hin).
  - right. destruct Hvia as (l & _ & _ & _ & Hfind).
    now apply find_some in Hfind.
  - left. now destruct Hvia as (l & _ & _ & _ & _ & ->).
Qed.

(** The value returned by a match branch has no capitals. *)
Lemma match_branch_lower (lng : option string) (S : list string) (F : string)
    (b : Branch) (r : string) :
  normalizeLngVia lng S F = (b, r) -> isMatchBranch b = true ->
  toLowerCase r = r.
Proof.
  intros Hvia Hb. apply normalizeLngVia_cases in Hvia.
  destruct b; try discriminate.
  - destruct Hvia as (l & _ & _ & -> & _). apply toLowerCase_idem.
  - destruct Hvia as (l & _ & _ & _ & Hfind).
    apply find_some in Hfind as [_ Hpre].
    exact (startsWith_lower _ _ (toLowerCase_idem l) Hpre).
Qed.

(** A result other than the fallback comes from a match branch, hence has
    no capitals. *)
Lemma normalizeLng_not_fallback_lower (lng : option string) (S : list string)
    (F : string) :
  normalizeLng lng S F <> F ->
  toLowerCase (normalizeLng lng S F) = normalizeLng lng S F.
Proof.
  rewrite <- normalizeLngVia_snd.
  destruct (normalizeLngVia lng S F) as [b r] eqn:Hvia. simpl. intros Hne.
  apply (match_branch_lower _ _ _ _ _ Hvia).
  apply normalizeLngVia_cases in Hvia. destruct b; try reflexivity.
  - now destruct Hvia.
  - now destruct Hvia as (l & _ & _ & _ & _ & ?).
Qed.

(** *** Idempotence *)

(** C2, as stated, fails: with the supported list [["en"]] and the fallback
    ["EN"], the request ["de"] resolves to the fallback ["EN"], and
    resolving ["EN"] gives ["en"]. *)
Lemma normalizeLng_not_idempotent :
  normalizeLng (Some "de") ["en"] "EN" = "EN" /\
  normalizeLng (Some "EN") ["en"] "EN" = "en" /\
  normalizeLng (Some (normalizeLng (Some "de") ["en"] "EN")) ["en"] "EN"
    <> normalizeLng (Some "de") ["en"] "EN".
Proof. repeat split. vm_compute. discriminate. Qed.

(** C2, amended: when the fallback resolves to itself and the supported list
    has no empty string (or the fallback is the empty string),
    normalizing a second time changes nothing. *)
Theorem normalizeLng_idempotent (lng : option string) (S : list string)
    (F : string) :
  normalizeLng (Some F) S F = F ->
  (In "" S -> F = "") ->
  normalizeLng (Some (normalizeLng lng S F)) S F = normalizeLng lng S F.
Proof.
  intros HF Hempty.
  destruct (normalizeLngVia lng S F) as [b r] eqn:Hvia.
  assert (Hr : normalizeLng lng S F = r)
    by (rewrite <- normalizeLngVia_snd, Hvia; reflexivity).
  rewrite Hr. clear Hr.
  pose proof (match_branch_lower _ _ _ _ _ Hvia) as Hlow.
  apply normalizeLngVia_cases in Hvia. destruct b.
  - destruct Hvia as [_ ->]. exact HF.
  - destruct Hvia as (l & _ & Hne & Hr & Hin).
    apply normalizeLng_fixed; auto.
    subst r. now apply toLowerCase_nonempty.
  - destruct Hvia as (l & _ & _ & _ & Hfind).
    apply find_some in Hfind as [Hin _].
    destruct (String.eqb_spec r "") as [->|Hne].
    + now rewrite (Hempty Hin).
    + apply normalizeLng_fixed; auto.
  - destruct Hvia as (l & _ & _ & _ & _ & ->). exact HF.
Qed.

Lemma normalizeLng_idempotent_witness :
  normalizeLng (Some (normalizeLng (Some "en-US") ["en"; "es"; "fr"] "en"))
               ["en"; "es"; "fr"] "en"
  = normalizeLng (Some "en-US") ["en"; "es"; "fr"] "en".
Proof.
  apply (normalizeLng_idempotent (Some "en-US") ["en"; "es"; "fr"] "en").
  - reflexivity.
  - simpl. intros [H|[H|[H|[]]]]; discriminate.
Defined.

(** The hypotheses of the amended idempotence are needed with a lowercase
    configuration too: a fallback outside the supported list that starts
    with a supported tag, and an empty supported tag. *)
Example normalizeLng_not_idempotent_prefixed_fallback :
  normalizeLng (Some "de") ["en"] "en-us" = "en-us" /\
  normalizeLng (Some "en-us") ["en"] "en-us" = "en".
Proof. split; reflexivity. Qed.

Example normalizeLng_not_idempotent_empty_tag :
  normalizeLng (Some "de") [""] "en" = "" /\
  normalizeLng (Some "") [""] "en" = "en".
Proof. split; reflexivity. Qed.

(** *** Elements of the supported list *)

(** C3, as stated, fails: the supported tag ["EN"] is not returned for the
    request ["EN"], which is lowered to ["en"] and then matches nothing. *)
Lemma supported_tag_not_returned :
  In "EN" ["EN"] /\
  normalizeLng (Some "EN") ["EN"] "en" = "en" /\
  normalizeLng (Some "EN") ["EN"] "en" <> "EN".
Proof. repeat split; [now left | vm_compute; discriminate]. Qed.

(** C3, amended: a non-empty element [t] of the supported list that is its
    own lowercase form, and that lowering its uppercase form gives back
    (as for every lowercase ASCII tag), is returned as it is, for the
    request [t] and for the request [toUpperCase t]. *)
Theorem normalizeLng_supported (t : string) (S : list string) (F : string) :
  In t S -> t <> "" -> toLowerCase t = t ->
  toLowerCase (toUpperCase t) = t ->
  normalizeLng (Some t) S F = t /\
  normalizeLng (Some (toUpperCase t)) S F = t.
Proof.
  intros Hin Hne Hlow Hround. split.
  - now apply normalizeLng_fixed.
  - assert (Hup : toUpperCase t <> "").
    { intros Hup. rewrite Hup in Hround. simpl in Hround. congruence. }
    rewrite normalizeLng_nonempty by exact Hup.
    rewrite Hround.
    apply includes_In in Hin. now rewrite Hin.
Qed.

Lemma normalizeLng_supported_witness :
  normalizeLng (Some "es") ["en"; "es"; "fr"] "en" = "es" /\
  normalizeLng (Some (toUpperCase "es")) ["en"; "es"; "fr"] "en" = "es".
Proof.
  apply (normalizeLng_supported "es" ["en"; "es"; "fr"] "en").
  - simpl. auto.
  - discriminate.
  - reflexivity.
  - reflexivity.
Defined.

(** An empty supported tag is not returned for the empty request. *)
Example empty_tag_not_returned :
  In "" [""] /\ normalizeLng (Some "") [""] "en" = "en".
Proof. split; [now left | reflexivity]. Qed.

(** *** The prefix rule *)

(** C4: a request whose lowercase form is not in the supported list, but
    starts with some element of it, resolves to the first such element of
    the list.  Nothing is asked of the character after the prefix. *)
Theorem normalizeLng_prefix (t : string) (S : list string) (F : string) :
  ~ In (toLowerCase t) S ->
  (exists s, In s S /\ startsWith (toLowerCase t) s = true) ->
  exists s, FirstPrefix (toLowerCase t) S s /\ normalizeLng (Some t) S F = s.
Proof.
  intros Hexact Hsome.
  destruct (String.eqb_spec t "") as [->|Hne].
  - destruct Hsome as (s & Hin & Hpre). simpl in Hpre.
    apply startsWith_empty in Hpre. subst s. now elim Hexact.
  - rewrite normalizeLng_nonempty by assumption.
    apply includes_not_In in Hexact. rewrite Hexact.
    destruct (find_is_Some _ _ Hsome) as [y Hfind]. rewrite Hfind.
    exists y. split; [|reflexivity]. now apply find_first.
Qed.

Lemma normalizeLng_prefix_witness :
  FirstPrefix "esperanto" ["en"; "es"; "fr"] "es" /\
  normalizeLng (Some "esperanto") ["en"; "es"; "fr"] "en" = "es".
Proof.
  destruct (normalizeLng_prefix "esperanto" ["en"; "es"; "fr"] "en")
    as (s & Hfirst & Hs).
  - simpl. intros [H|[H|[H|[]]]]; discriminate.
  - exists "es". split; [simpl; auto | reflexivity].
  - vm_compute in Hs. subst s. split; [exact Hfirst | reflexivity].
Defined.

(** *** The fallback *)

(** C5: a request that no element of the supported list matches, exactly or
    as a prefix, resolves to the fallback as it was given.  The elements of
    the list are compared as they are: neither they nor the fallback are
    lowered. *)
Theorem normalizeLng_fallback (t : string) (S : list string) (F : string) :
  ~ In (toLowerCase t) S ->
  (forall s, In s S -> startsWith (toLowerCase t) s = false) ->
  normalizeLng (Some t) S F = F.
Proof.
  intros Hexact Hprefix.
  destruct (String.eqb_spec t "") as [->|Hne]; [reflexivity|].
  rewrite normalizeLng_nonempty by assumption.
  apply includes_not_In in Hexact. rewrite Hexact.
  destruct (find _ S) as [s|] eqn:Hfind; [|reflexivity].
  apply find_some in Hfind as [Hin Hpre].
  rewrite (Hprefix s Hin) in Hpre. discriminate.
Qed.

Lemma normalizeLng_fallback_witness :
  normalizeLng (Some "en") ["EN"; "Fr"] "De" = "De".
Proof.
  apply (normalizeLng_fallback "en" ["EN"; "Fr"] "De").
  - simpl. intros [H|[H|[]]]; discriminate.
  - simpl. intros s [<-|[<-|[]]]; reflexivity.
Defined.

(** C6: the scenario of the specification. *)
Theorem normalizeLng_scenario :
  let S := ["en"; "es"; "fr"] in
  let F := "en" in
  normalizeLng (Some "en-US") S F = "en" /\
  normalizeLng (Some "ES") S F = "es" /\
  normalizeLng (Some "de") S F = "en" /\
  normalizeLng None S F = "en" /\
  normalizeLng (Some "") S F = "en" /\
  (forall S' F', normalizeLng None S' F' = F' /\
                 normalizeLng (Some "") S' F' = F').
Proof. repeat split. Qed.

(** *** Case of the result *)

(** C10: a value returned by the exact-match or the prefix-match branch is
    its own lowercase form, so it is no element of the supported list that
    has a capital letter. *)
Theorem match_branch_result (lng : option string) (S : list string)
    (F : string) (b : Branch) (r : string) :
  normalizeLngVia lng S F = (b, r) ->
  isMatchBranch b = true ->
  r = normalizeLng lng S F /\
  toLowerCase r = r /\
  (forall s, In s S -> hasUpper s = true -> s <> r).
Proof.
  intros Hvia Hb.
  pose proof (match_branch_lower _ _ _ _ _ Hvia Hb) as Hlow.
  repeat split.
  - now rewrite <- normalizeLngVia_snd, Hvia.
  - exact Hlow.
  - intros s _ Hup ->. apply hasUpper_toLowerCase in Hlow. congruence.
Qed.

Lemma match_branch_result_witness :
  "en" = normalizeLng (Some "EN-us") ["EN"; "en"] "fr" /\
  toLowerCase "en" = "en" /\
  (forall s, In s ["EN"; "en"] -> hasUpper s = true -> s <> "en").
Proof.
  apply (match_branch_result (Some "EN-us") ["EN"; "en"] "fr" ViaPrefix "en").
  - reflexivity.
  - reflexivity.
Defined.

End NormalizerSpec.

(** ** The locale store *)

Module StoreSpec.
Import Js Normalizer JsFacts NormalizerSpec Store.

Section Provider.
Context {E : I18n}.
Variable props : LocaleProviderProps.

Local Abbreviation S := (supportedLanguages props).
Local Abbreviation F := (fallbackLanguage props).

(** The two outcomes of [setLanguage]. *)
Lemma setLanguage_returns (lng : string) (m : Mounted E) (e' : i18n_state E) (u : unit) :
  i18n_changeLanguage E (normalizeLng (Some lng) S F) (i18n (host m)) = (e', Normal u) ->
  setLanguage props lng m =
    ({| host := setDocumentLang (normalizeLng (Some lng) S F)
                  (persist props (normalizeLng (Some lng) S F)
                     {| i18n := e';
                        localStorage := localStorage (host m);
                        documentLang := documentLang (host m) |});
        language := normalizeLng (Some lng) S F |},
     Normal tt).
Proof. unfold setLanguage. now intros ->. Qed.

Lemma setLanguage_throws (lng : string) (m : Mounted E) (e' : i18n_state E)
    (err : JsError) :
  i18n_changeLanguage E (normalizeLng (Some lng) S F) (i18n (host m)) = (e', Throw err) ->
  setLanguage props lng m =
    ({| host := {| i18n := e';
                   localStorage := localStorage (host m);
                   documentLang := documentLang (host m) |};
        language := language m |},
     Throw err).
Proof. unfold setLanguage. now intros ->. Qed.

(** The current language after a call: the normalized request when the call
    returned, the former language when it threw. *)
Lemma setLanguage_language (lng : string) (m : Mounted E) :
  language (fst (setLanguage props lng m)) =
    match snd (setLanguage props lng m) with
    | Normal _ => normalizeLng (Some lng) S F
    | Throw _ => language m
    end.
Proof.
  unfold setLanguage.
  destruct (i18n_changeLanguage E _ (i18n (host m))) as [e' [u|err]]; reflexivity.
Qed.

(** The source's hint and the specification's resolve alike. *)
Lemma initialHint_spec (h : Host E) :
  normalizeLng (initialHint props h) S F = normalizeLng (specInitialHint props h) S F.
Proof.
  unfold initialHint, specInitialHint, persisted, or_else.
  destruct (truthy (i18n_language E (i18n h))); [reflexivity|].
  destruct (localStorage h) as [items|]; [|reflexivity].
  destruct (truthy (items !! storageKey props)) eqn:Ht; [reflexivity|].
  now rewrite (normalizeLng_falsy _ _ _ Ht).
Qed.

Lemma last_cons {A : Type} (l : list A) (a d : A) :
  List.last (a :: l) d = List.last l a.
Proof.
  revert a d. induction l as [|b l IH]; intros a d; [reflexivity|].
  change (List.last (a :: b :: l) d) with (List.last (b :: l) d).
  now rewrite !IH.
Qed.

Lemma lastRequested_cons (hint : option string) (lng : string) (reqs : list string) :
  lastRequested hint (lng :: reqs) = lastRequested (Some lng) reqs.
Proof. unfold lastRequested. simpl map. apply last_cons. Qed.

(** While no call throws, the request applied last is the last request. *)
Lemma lastApplied_allReturn (hint : option string) (reqs : list string) (m : Mounted E) :
  allReturn props reqs m = true ->
  lastApplied props hint reqs m = lastRequested hint reqs.
Proof.
  revert hint m. induction reqs as [|lng reqs IH]; intros hint m; [reflexivity|].
  rewrite lastRequested_cons. simpl.
  destruct (setLanguage props lng m) as [m' [u|err]]; [apply IH | discriminate].
Qed.

(** The invariant of the store, from any state that satisfies it. *)
Lemma setLanguages_language (hint : option string) (reqs : list string) (m : Mounted E) :
  language m = normalizeLng hint S F ->
  language (setLanguages props reqs m) =
    normalizeLng (lastApplied props hint reqs m) S F.
Proof.
  revert hint m. induction reqs as [|lng reqs IH]; intros hint m Hm; [exact Hm|].
  simpl. pose proof (setLanguage_language lng m) as Hstep.
  destruct (setLanguage props lng m) as [m' [u|err]]; simpl in *.
  - now apply IH.
  - apply IH. congruence.
Qed.

(** A call that returns writes the normalized tag under the storage key and
    into the [lang] attribute, where the host has them. *)
Lemma setLanguage_side_effects (lng : string) (m : Mounted E) (e' : i18n_state E)
    (u : unit) :
  i18n_changeLanguage E (normalizeLng (Some lng) S F) (i18n (host m)) = (e', Normal u) ->
  let m' := fst (setLanguage props lng m) in
  language m' = normalizeLng (Some lng) S F /\
  i18n (host m') = e' /\
  localStorage (host m') =
    (fun items : gmap string string =>
       <[storageKey props := normalizeLng (Some lng) S F]> items)
      <$> localStorage (host m) /\
  documentLang (host m') =
    (fun _ => normalizeLng (Some lng) S F) <$> documentLang (host m).
Proof.
  intros Hret. rewrite (setLanguage_returns lng m e' u Hret). simpl.
  repeat split.
Qed.

(** *** The current language *)

(** C1, amended: after the construction and any sequence of [setLanguage]
    calls, the current language is [normalizeLng] of the value requested
    last among the calls on which the engine did not throw (the value read
    at construction when there is none); so it is the fallback or an element
    of the supported list.  When no call threw, that value is the last
    requested one. *)
Theorem current_language_invariant (h : Host E) (reqs : list string) :
  let m0 := mount props h in
  let m := setLanguages props reqs m0 in
  language m = normalizeLng (lastApplied props (initialHint props h) reqs m0) S F /\
  In (language m) (F :: S) /\
  (allReturn props reqs m0 = true ->
   language m = normalizeLng (lastRequested (initialHint props h) reqs) S F).
Proof.
  intros m0 m.
  assert (Hm : language m =
               normalizeLng (lastApplied props (initialHint props h) reqs m0) S F)
    by (apply setLanguages_language; reflexivity).
  split; [exact Hm|]. split.
  - rewrite Hm. apply normalizeLng_member.
  - intros Hall. rewrite Hm. f_equal. now apply lastApplied_allReturn.
Qed.

(** *** Construction *)

(** C7: the initial language is [normalizeLng] of the engine's language if
    there is one, else of the persisted value if there is a persistence
    backend, else of nothing.  With neither an engine language nor a
    persisted value it is the fallback; with no engine language and ["es"]
    persisted, ["es"] being supported, it is ["es"]. *)
Theorem mount_language (h : Host E) :
  language (mount props h) = normalizeLng (specInitialHint props h) S F /\
  (i18n_language E (i18n h) = None ->
   (forall items, localStorage h = Some items -> items !! storageKey props = None) ->
   language (mount props h) = F) /\
  (i18n_language E (i18n h) = None ->
   forall items, localStorage h = Some items ->
   items !! storageKey props = Some "es" ->
   In "es" S ->
   language (mount props h) = "es").
Proof.
  assert (Hinit : language (mount props h) = normalizeLng (specInitialHint props h) S F)
    by apply initialHint_spec.
  split; [exact Hinit|]. rewrite Hinit. unfold specInitialHint. split.
  - intros -> Hnone. simpl.
    destruct (localStorage h) as [items|]; [|reflexivity].
    now rewrite (Hnone items eq_refl).
  - intros -> items -> -> Hin. simpl truthy. cbv iota.
    now apply normalizeLng_fixed.
Qed.

(** *** A failing engine *)

(** C8: when the engine's change operation throws, [setLanguage] throws the
    same error, and the current language, the persisted values and the
    [lang] attribute are what they were. *)
Theorem setLanguage_engine_throws (lng : string) (m : Mounted E)
    (e' : i18n_state E) (err : JsError) :
  i18n_changeLanguage E (normalizeLng (Some lng) S F) (i18n (host m)) = (e', Throw err) ->
  snd (setLanguage props lng m) = Throw err /\
  language (fst (setLanguage props lng m)) = language m /\
  localStorage (host (fst (setLanguage props lng m))) = localStorage (host m) /\
  documentLang (host (fst (setLanguage props lng m))) = documentLang (host m).
Proof.
  intros Hthrow. rewrite (setLanguage_throws lng m e' err Hthrow).
  repeat split.
Qed.

End Provider.

(** C1, as stated, fails: the engine throws on the second of two calls, and
    the current language stays at the first request, ["fr"], while the last
    requested value, ["es"], normalizes to ["es"]. *)
Lemma current_language_not_last_requested :
  let props := threeLanguages in
  let h := freshBrowser pickyEngine None in
  let m := setLanguages props ["fr"; "es"] (mount props h) in
  lastRequested (initialHint props h) ["fr"; "es"] = Some "es" /\
  language m = "fr" /\
  language m <> normalizeLng (lastRequested (initialHint props h) ["fr"; "es"])
                             (supportedLanguages props) (fallbackLanguage props).
Proof. repeat split. vm_compute. discriminate. Qed.

Lemma current_language_invariant_witness :
  language (setLanguages threeLanguages ["fr"; "ES"]
              (mount threeLanguages (freshBrowser steadyEngine None)))
  = normalizeLng (Some "ES") ["en"; "es"; "fr"] "en".
Proof.
  destruct (current_language_invariant threeLanguages
              (freshBrowser steadyEngine None) ["fr"; "ES"]) as (_ & _ & H).
  apply H. reflexivity.
Defined.

Lemma mount_language_witness :
  let h := returningBrowser steadyEngine None "es" in
  language (mount threeLanguages h) = "es" /\
  language (mount threeLanguages (freshBrowser steadyEngine None)) = "en".
Proof.
  intros h. split.
  - destruct (mount_language threeLanguages h) as (_ & _ & H).
    apply (H eq_refl {[ "language" := "es" ]} eq_refl).
    + reflexivity.
    + simpl. auto.
  - destruct (mount_language threeLanguages (freshBrowser steadyEngine None))
      as (_ & H & _).
    apply (H eq_refl). intros items [= <-]. reflexivity.
Defined.

Lemma setLanguage_engine_throws_witness :
  let m := setLanguages threeLanguages ["fr"]
             (mount threeLanguages (freshBrowser pickyEngine None)) in
  snd (setLanguage threeLanguages "ES" m) = Throw (Error "no resources for es") /\
  language (fst (setLanguage threeLanguages "ES" m)) = language m /\
  localStorage (host (fst (setLanguage threeLanguages "ES" m))) = localStorage (host m) /\
  documentLang (host (fst (setLanguage threeLanguages "ES" m))) = documentLang (host m).
Proof.
  intros m.
  apply (setLanguage_engine_throws threeLanguages "ES" m (Some "fr")).
  reflexivity.
Defined.

(** End to end, on a first visit: the store starts at the fallback;
    [setLanguage "fr"] makes ["fr"] current, hands it to the engine and
    persists it. *)
Example first_visit :
  let m0 := mount threeLanguages (freshBrowser steadyEngine None) in
  let m1 := fst (setLanguage threeLanguages "fr" m0) in
  language m0 = "en" /\
  language m1 = "fr" /\
  i18n (host m1) = Some "fr" /\
  localStorage (host m1) = Some {[ "language" := "fr" ]} /\
  documentLang (host m1) = Some "fr".
Proof. repeat split. Qed.

(** *** The hook *)

(** C9: outside every provider [useLocale] throws; inside one it returns
    the value of the innermost provider. *)
Theorem useLocale_spec (E : I18n) :
  useLocale (@nil (LocaleContextType E))
    = Throw (Error "useLocale must be used within LocaleProvider") /\
  (forall (v : LocaleContextType E) (outer : list (LocaleContextType E)),
     useLocale (v :: outer) = Normal v) /\
  (forall (props : LocaleProviderProps) (m : Mounted E)
          (outer : list (LocaleContextType E)),
     useLocale (value props m :: outer) = Normal (value props m)).
Proof. repeat split. Qed.

End StoreSpec.

(** ** More about the normalizer *)

Module NormalizerMore.
Import Js Normalizer JsFacts NormalizerSpec.

Lemma startsWith_length (str search : string) :
  startsWith str search = true -> String.length search <= String.length str.
Proof.
  revert str. induction search as [|c search IH]; intros str; simpl; [lia|].
  destruct str as [|d str]; [discriminate|].
  intros H. apply andb_true_iff in H as [_ H]. apply IH in H. simpl. lia.
Qed.

Lemma startsWith_trans (a b c : string) :
  startsWith a b = true -> startsWith b c = true -> startsWith a c = true.
Proof.
  revert a b. induction c as [|x c IH]; intros a b Hab Hbc; [reflexivity|].
  destruct b as [|y b]; simpl in Hbc; [discriminate|].
  destruct a as [|z a]; simpl in Hab; [discriminate|].
  apply andb_true_iff in Hab as [Hzy Hab].
  apply andb_true_iff in Hbc as [Hyx Hbc].
  apply Ascii.eqb_eq in Hzy, Hyx. subst. simpl.
  rewrite Ascii.eqb_refl. simpl. now apply (IH a b).
Qed.

(** [find] does not go past an element that passes the test. *)
Lemma find_app_stop {A : Type} (f : A -> bool) (pre rest : list A) (a x : A) :
  f a = true -> find f (pre ++ a :: rest) = Some x -> In x pre \/ x = a.
Proof.
  intros Ha. induction pre as [|p pre IH]; simpl.
  - rewrite Ha. intros [= <-]. now right.
  - destruct (f p).
    + intros [= <-]. left. now left.
    + intros H. destruct (IH H) as [Hin | ->]; [left; now right | now right].
Qed.

(** X1: the result depends on the request through its lowercase form
    only. *)
Theorem normalizeLng_case_insensitive (t1 t2 : string) (S : list string)
    (F : string) :
  toLowerCase t1 = toLowerCase t2 ->
  normalizeLng (Some t1) S F = normalizeLng (Some t2) S F.
Proof.
  intros Heq. destruct t1 as [|c1 t1], t2 as [|c2 t2]; try discriminate.
  - reflexivity.
  - rewrite !normalizeLng_nonempty by discriminate. now rewrite Heq.
Qed.

Lemma normalizeLng_case_insensitive_witness :
  normalizeLng (Some "EN-us") ["fr"; "en"] "de"
  = normalizeLng (Some "en-US") ["fr"; "en"] "de".
Proof.
  apply (normalizeLng_case_insensitive "EN-us" "en-US" ["fr"; "en"] "de").
  reflexivity.
Defined.

(** X2: the result is the fallback, or it is an element of the supported
    list that the lowercase request starts with. *)
Theorem normalizeLng_sound (t : string) (S : list string) (F : string) :
  normalizeLng (Some t) S F = F \/
  (In (normalizeLng (Some t) S F) S /\
   startsWith (toLowerCase t) (normalizeLng (Some t) S F) = true).
Proof.
  destruct (normalizeLngVia (Some t) S F) as [b r] eqn:Hvia.
  assert (Hr : normalizeLng (Some t) S F = r)
    by (rewrite <- normalizeLngVia_snd, Hvia; reflexivity).
  rewrite Hr. apply normalizeLngVia_cases in Hvia. destruct b.
  - left. now destruct Hvia.
  - right. destruct Hvia as (l & [= <-] & _ & -> & Hin).
    split; [assumption | apply startsWith_refl].
  - right. destruct Hvia as (l & [= <-] & _ & _ & Hfind).
    now apply find_some in Hfind.
  - left. now destruct Hvia as (l & _ & _ & _ & _ & ->).
Qed.

(** X3: a supported tag that comes after one of its own prefixes in the
    list is shadowed by it: it is the result only for a request that equals
    it up to case, or as the fallback. *)
Theorem shadowed_tag (pre rest : list string) (s1 s2 t F : string) :
  startsWith s2 s1 = true -> s1 <> s2 -> ~ In s2 pre ->
  normalizeLng (Some t) (pre ++ s1 :: rest) F = s2 ->
  toLowerCase t = s2 \/ F = s2.
Proof.
  intros Hpre Hne Hnotin Hres.
  destruct (normalizeLngVia (Some t) (pre ++ s1 :: rest) F) as [b r] eqn:Hvia.
  assert (Hr : normalizeLng (Some t) (pre ++ s1 :: rest) F = r)
    by (rewrite <- normalizeLngVia_snd, Hvia; reflexivity).
  rewrite Hr in Hres. subst r.
  apply normalizeLngVia_cases in Hvia. destruct b.
  - right. now destruct Hvia as [_ ->].
  - left. now destruct Hvia as (l & [= <-] & _ & -> & _).
  - exfalso. destruct Hvia as (l & [= <-] & _ & _ & Hfind).
    pose proof (find_some _ _ Hfind) as [_ Hlow].
    pose proof (startsWith_trans _ _ _ Hlow Hpre) as Hlow1.
    destruct (find_app_stop _ _ _ _ _ Hlow1 Hfind) as [Hin | Heq]; auto.
  - right. now destruct Hvia as (l & _ & _ & _ & _ & ->).
Qed.

Lemma shadowed_tag_witness :
  normalizeLng (Some "en-us-posix") ["en"; "en-us"] "fr" = "en" /\
  (toLowerCase "EN-US" = "en-us" \/ "fr" = "en-us").
Proof.
  split; [reflexivity|].
  apply (shadowed_tag [] ["en-us"] "en" "en-us" "EN-US" "fr").
  - reflexivity.
  - discriminate.
  - simpl. tauto.
  - reflexivity.
Defined.

(** X4: with an empty string in the supported list, a non-empty request
    never reaches the fallback statement: the result is an element of the
    list. *)
Theorem empty_tag_catches_all (t : string) (S : list string) (F : string) :
  In "" S -> t <> "" -> In (normalizeLng (Some t) S F) S.
Proof.
  intros Hin Hne. rewrite normalizeLng_nonempty by assumption.
  destruct (includes S (toLowerCase t)) eqn:Hinc.
  - now apply includes_In.
  - destruct (find _ S) as [s|] eqn:Hfind.
    + now apply find_some in Hfind.
    + pose proof (find_none _ _ Hfind "" Hin) as H. discriminate.
Qed.

Lemma empty_tag_catches_all_witness :
  In (normalizeLng (Some "de") ["en"; ""] "fr") ["en"; ""].
Proof.
  apply (empty_tag_catches_all "de" ["en"; ""] "fr").
  - simpl. auto.
  - discriminate.
Defined.

(** X5: a request whose lowercase form is shorter than every supported
    tag resolves to the fallback; so does every request when the list is
    empty. *)
Theorem short_request_falls_back (t : string) (S : list string) (F : string) :
  (forall s, In s S -> String.length (toLowerCase t) < String.length s) ->
  normalizeLng (Some t) S F = F.
Proof.
  intros Hshort.
  destruct (String.eqb_spec t "") as [->|Hne]; [reflexivity|].
  rewrite normalizeLng_nonempty by assumption.
  destruct (includes S (toLowerCase t)) eqn:Hinc.
  - apply includes_In, Hshort in Hinc. lia.
  - destruct (find _ S) as [s|] eqn:Hfind; [|reflexivity].
    apply find_some in Hfind as [Hin Hpre].
    apply startsWith_length in Hpre. apply Hshort in Hin. lia.
Qed.

Lemma short_request_falls_back_witness :
  normalizeLng (Some "E") ["en"; "es"] "fr" = "fr".
Proof.
  apply (short_request_falls_back "E" ["en"; "es"] "fr").
  simpl. intros s [<-|[<-|[]]]; simpl; lia.
Defined.

(** When every supported tag is the fallback, every request resolves to
    it. *)
Lemma normalizeLng_single (lng : option string) (S : list string) (F : string) :
  (forall s, In s S -> s = F) -> normalizeLng lng S F = F.
Proof.
  intros Hall. destruct (normalizeLng_member lng S F) as [H|H]; [now symmetry|].
  now apply Hall.
Qed.

(** Under the hypotheses of idempotence a result resolves to itself. *)
Lemma normalizeLng_result_stable (lng : option string) (S : list string)
    (F : string) :
  normalizeLng (Some F) S F = F -> (In "" S -> F = "") ->
  normalizeLng (Some (normalizeLng lng S F)) S F = normalizeLng lng S F.
Proof.
  intros HF Hempty.
  destruct (String.eqb_spec (normalizeLng lng S F) F) as [->|Hne]; [exact HF|].
  pose proof (normalizeLng_not_fallback_lower lng S F Hne) as Hlow.
  destruct (normalizeLng_member lng S F) as [H|Hin]; [now elim Hne|].
  destruct (String.eqb_spec (normalizeLng lng S F) "") as [Hr|Hr].
  - rewrite Hr in *. now rewrite (Hempty Hin) in Hne.
  - now apply normalizeLng_fixed.
Qed.

End NormalizerMore.

(** ** More about the locale store *)

Module StoreMore.
Import Js Normalizer JsFacts NormalizerSpec NormalizerMore Store Observe StoreSpec.

Section Provider.
Context {E : I18n}.
Variable props : LocaleProviderProps.

Local Abbreviation S := (supportedLanguages props).
Local Abbreviation F := (fallbackLanguage props).

(** One call: a returning call applies its request, a throwing call applies
    nothing. *)
Lemma setLanguage_stateAfter (lng : string) (m : Mounted E) :
  stateAfter props
    match snd (setLanguage props lng m) with
    | Normal _ => Some lng
    | Throw _ => None
    end
    m (fst (setLanguage props lng m)).
Proof.
  unfold setLanguage.
  destruct (i18n_changeLanguage E _ (i18n (host m))) as [e' [u|err]]; simpl.
  - repeat split.
  - repeat split.
Qed.

Lemma stateAfter_unchanged (a : option string) (base m m' : Mounted E) :
  stateAfter props a base m -> stateAfter props None m m' ->
  stateAfter props a base m'.
Proof.
  intros Hm (Hl & Hs & Hd). destruct a as [lng|]; simpl in *.
  - destruct Hm as (? & ? & ?). repeat split; congruence.
  - destruct Hm as (? & ? & ?). repeat split; congruence.
Qed.

Lemma stateAfter_applied (a : option string) (lng : string) (base m m' : Mounted E) :
  stateAfter props a base m -> stateAfter props (Some lng) m m' ->
  stateAfter props (Some lng) base m'.
Proof.
  intros Hm (Hl & Hs & Hd). simpl. split; [exact Hl|].
  rewrite Hs, Hd. destruct a as [prev|]; simpl in Hm.
  - destruct Hm as (_ & -> & ->). split.
    + destruct (localStorage (host base)) as [items|]; simpl; [|reflexivity].
      now rewrite insert_insert_eq.
    + now destruct (documentLang (host base)).
  - destruct Hm as (_ & -> & ->). split; reflexivity.
Qed.

(** A sequence of calls, from a store that is already [a] away from
    [base]. *)
Lemma setLanguages_stateAfter (reqs : list string) (a : option string)
    (base m : Mounted E) :
  stateAfter props a base m ->
  stateAfter props (lastApplied props a reqs m) base (setLanguages props reqs m).
Proof.
  revert a m. induction reqs as [|lng reqs IH]; intros a m Hm; [exact Hm|].
  simpl. pose proof (setLanguage_stateAfter lng m) as Hstep.
  destruct (setLanguage props lng m) as [m' [u|err]]; simpl in Hstep; apply IH.
  - exact (stateAfter_applied a lng base m m' Hm Hstep).
  - exact (stateAfter_unchanged a base m m' Hm Hstep).
Qed.

Lemma stateAfter_refl (m : Mounted E) : stateAfter props None m m.
Proof. repeat split. Qed.

(** X6: when every supported tag is the fallback, as with the default
    props, the current language is the fallback whatever is requested. *)
Theorem single_language (h : Host E) (reqs : list string) :
  (forall s, In s S -> s = F) ->
  language (setLanguages props reqs (mount props h)) = F.
Proof.
  intros Hall.
  rewrite (setLanguages_language props (initialHint props h)) by reflexivity.
  now apply normalizeLng_single.
Qed.

(** On a storage that takes every write, [Quota.setLanguage] is
    [setLanguage]. *)
Lemma quota_setLanguage_agrees
    (refuses : string -> string -> gmap string string -> option JsError)
    (lng : string) (m : Mounted E) :
  (forall v items, refuses (storageKey props) v items = None) ->
  Quota.setLanguage refuses props lng m = setLanguage props lng m.
Proof.
  intros Hnever. unfold Quota.setLanguage, setLanguage, Quota.setItem.
  destruct (i18n_changeLanguage E _ (i18n (host m))) as [e' [u|err]];
    [|reflexivity].
  unfold persist, setDocumentLang. simpl.
  destruct (localStorage (host m)) as [items|]; [|reflexivity].
  now rewrite Hnever.
Qed.

(** After a call of [setLanguage] the render has nothing to do. *)
Lemma rerender_setLanguage (lng : string) (m : Mounted E) :
  Quota.rerender m (fst (setLanguage props lng m)) = fst (setLanguage props lng m).
Proof.
  unfold Quota.rerender, setLanguage.
  destruct (i18n_changeLanguage E _ (i18n (host m))) as [e' [u|err]]; simpl.
  - destruct (String.eqb _ _); [reflexivity|].
    unfold languageEffect, setDocumentLang. simpl.
    now destruct (documentLang (host m)).
  - now rewrite String.eqb_refl.
Qed.

Lemma quota_setLanguages_agrees
    (refuses : string -> string -> gmap string string -> option JsError)
    (reqs : list string) (m : Mounted E) :
  (forall v items, refuses (storageKey props) v items = None) ->
  Quota.setLanguages refuses props reqs m = setLanguages props reqs m.
Proof.
  intros Hnever. revert m. induction reqs as [|lng reqs IH]; intros m; [reflexivity|].
  simpl. rewrite (quota_setLanguage_agrees refuses lng m Hnever).
  rewrite rerender_setLanguage. apply IH.
Qed.

(** [setLanguage] returns exactly on the requests the engine accepts. *)
Lemma lastApplied_lastAccepted (a : option string) (reqs : list string)
    (m : Mounted E) :
  lastApplied props a reqs m = Quota.lastAccepted props a reqs (i18n (host m)).
Proof.
  revert a m. induction reqs as [|lng reqs IH]; intros a m; [reflexivity|].
  simpl. unfold setLanguage.
  destruct (i18n_changeLanguage E _ (i18n (host m))) as [e' [u|err]];
    rewrite IH; reflexivity.
Qed.

(** X7: on a storage that refuses no write, after any sequence of calls
    only the request the engine accepted last shows: the current language,
    the value under the storage key and the [lang] attribute hold its
    normalized form, every other stored value is what it was, and a host
    without storage or without a document stays so; when the engine
    accepted none, nothing changed.  When the storage refuses the write of
    a request the engine accepted, the call throws the storage's error with
    the language already changed and the storage untouched, and the
    following render brings the [lang] attribute to the new language. *)
Theorem setLanguages_state
    (refuses : string -> string -> gmap string string -> option JsError)
    (reqs : list string) (m : Mounted E) :
  ((forall v items, refuses (storageKey props) v items = None) ->
   stateAfter props (Quota.lastAccepted props None reqs (i18n (host m))) m
     (Quota.setLanguages refuses props reqs m)) /\
  (forall (lng : string) (e' : i18n_state E) (u : unit)
          (items : gmap string string) (err : JsError),
     i18n_changeLanguage E (normalizeLng (Some lng) S F) (i18n (host m))
       = (e', Normal u) ->
     localStorage (host m) = Some items ->
     refuses (storageKey props) (normalizeLng (Some lng) S F) items = Some err ->
     let m' := fst (Quota.setLanguage refuses props lng m) in
     snd (Quota.setLanguage refuses props lng m) = Throw err /\
     language m' = normalizeLng (Some lng) S F /\
     localStorage (host m') = Some items /\
     documentLang (host m') = documentLang (host m) /\
     documentLang (host (Quota.rerender m m')) =
       if String.eqb (language m) (normalizeLng (Some lng) S F)
       then documentLang (host m)
       else (fun _ => normalizeLng (Some lng) S F) <$> documentLang (host m)).
Proof.
  split.
  - intros Hnever. rewrite (quota_setLanguages_agrees refuses reqs m Hnever).
    rewrite <- lastApplied_lastAccepted.
    apply setLanguages_stateAfter, stateAfter_refl.
  - intros lng e' u items err Hret Hitems Hrefuses m'. subst m'.
    unfold Quota.rerender, Quota.setLanguage, Quota.setItem.
    rewrite Hret, Hitems, Hrefuses.
    cbn [fst snd language host localStorage documentLang].
    repeat split.
    destruct (String.eqb _ _); [reflexivity|].
    unfold languageEffect, setDocumentLang.
    cbn [language host documentLang].
    now destruct (documentLang (host m)).
Qed.

(** X8: no sequence of calls changes what is stored under a key other than
    the storage key, or gives storage to a host without it. *)
Theorem other_keys_untouched (k : string) (reqs : list string) (m : Mounted E) :
  k <> storageKey props ->
  getItem k (host (setLanguages props reqs m)) = getItem k (host m).
Proof.
  intros Hk.
  pose proof (setLanguages_stateAfter reqs None m m (stateAfter_refl m)) as H.
  unfold getItem. destruct (lastApplied props None reqs m) as [lng|]; simpl in H.
  - destruct H as (_ & -> & _).
    destruct (localStorage (host m)) as [items|]; simpl; [|reflexivity].
    now rewrite lookup_insert_ne by congruence.
  - now destruct H as (_ & -> & _).
Qed.


(** X11: a reload.  After a call that returned on a host with storage, a
    provider constructed over the same storage, the engine reporting no
    language, starts at the normalized form of the language the store had;
    under the hypotheses of idempotence that is the same language. *)
Theorem reload_restores (lng : string) (m : Mounted E) (e' : i18n_state E)
    (u : unit) (items : gmap string string) (h2 : Host E) :
  i18n_changeLanguage E (normalizeLng (Some lng) S F) (i18n (host m)) = (e', Normal u) ->
  localStorage (host m) = Some items ->
  truthy (i18n_language E (i18n h2)) = false ->
  localStorage h2 = localStorage (host (fst (setLanguage props lng m))) ->
  let current := language (fst (setLanguage props lng m)) in
  language (mount props h2) = normalizeLng (Some current) S F /\
  (normalizeLng (Some F) S F = F -> (In "" S -> F = "") ->
   language (mount props h2) = current).
Proof.
  intros Hret Hitems Hengine Hsame current.
  unfold current. clear current.
  rewrite (setLanguage_returns props lng m e' u Hret) in *.
  cbn [fst language host localStorage setDocumentLang persist] in *.
  rewrite Hitems in Hsame.
  assert (Hinit : language (mount props h2) =
                  normalizeLng (Some (normalizeLng (Some lng) S F)) S F).
  { cbn [mount language]. unfold initial, initialHint, persisted, or_else.
    rewrite Hengine, Hsame, lookup_insert_eq.
    now destruct (normalizeLng (Some lng) S F). }
  split; [exact Hinit|].
  intros HF Hempty. rewrite Hinit. now apply normalizeLng_result_stable.
Qed.

End Provider.

(** X10: the engine is called once for every [setLanguage] call, in order,
    with the normalized request, which is the fallback or a supported tag;
    the construction does not call it. *)
Theorem engine_calls (E : I18n) (props : LocaleProviderProps)
    (h : Host (recording E)) (reqs : list string) :
  let norm := fun lng => normalizeLng (Some lng) (supportedLanguages props)
                           (fallbackLanguage props) in
  calls (i18n (host (mount props h))) = calls (i18n h) /\
  calls (i18n (host (setLanguages props reqs (mount props h))))
    = (calls (i18n h) ++ map norm reqs)%list /\
  Forall (fun tag => In tag (fallbackLanguage props :: supportedLanguages props))
         (map norm reqs).
Proof.
  intros norm. split; [reflexivity|]. split.
  - change (calls (i18n h)) with (calls (i18n (host (mount props h)))).
    generalize (mount props h). induction reqs as [|lng reqs IH]; intros m.
    + simpl. now rewrite app_nil_r.
    + simpl setLanguages. rewrite IH. simpl map.
      change (calls (i18n (host m)) ++ norm lng :: map norm reqs)%list
        with (calls (i18n (host m)) ++ [norm lng] ++ map norm reqs)%list.
      rewrite app_assoc. f_equal.
      unfold setLanguage. fold (norm lng). simpl.
      destruct (i18n_changeLanguage E (norm lng) (fst (i18n (host m))))
        as [e' [u|err]]; reflexivity.
  - apply List.Forall_forall. intros tag Hin. apply in_map_iff in Hin as (lng & <- & _).
    apply normalizeLng_member.
Qed.

Lemma single_language_witness :
  language (setLanguages defaultProps ["fr"; "EN-gb"]
              (mount defaultProps (freshBrowser steadyEngine None))) = "en".
Proof.
  apply (single_language defaultProps (freshBrowser steadyEngine None) ["fr"; "EN-gb"]).
  simpl. intros s [<-|[]]. reflexivity.
Defined.

Lemma setLanguages_state_witness :
  let m := mount threeLanguages (themedBrowser pickyEngine None) in
  let after := Quota.setLanguages Quota.neverRefuses threeLanguages ["fr"; "es"] m in
  let refused := fst (Quota.setLanguage Quota.alwaysRefuses threeLanguages "FR-ca" m) in
  (language after = "fr" /\
   localStorage (host after)
     = Some (<["language" := "fr"]> {[ "theme" := "dark" ]}) /\
   documentLang (host after) = Some "fr") /\
  (snd (Quota.setLanguage Quota.alwaysRefuses threeLanguages "FR-ca" m)
     = Throw (Error "QuotaExceededError") /\
   language refused = "fr" /\
   localStorage (host refused) = Some {[ "theme" := "dark" ]} /\
   documentLang (host refused) = Some "en" /\
   documentLang (host (Quota.rerender m refused)) = Some "fr").
Proof.
  intros m after refused. split.
  - exact (proj1 (setLanguages_state threeLanguages Quota.neverRefuses
                    ["fr"; "es"] m)
             (fun _ _ => eq_refl)).
  - exact (proj2 (setLanguages_state threeLanguages Quota.alwaysRefuses [] m)
             "FR-ca" (Some "fr") tt {[ "theme" := "dark" ]}
             (Error "QuotaExceededError") eq_refl eq_refl eq_refl).
Defined.

Lemma other_keys_untouched_witness :
  let m := mount threeLanguages (themedBrowser pickyEngine None) in
  getItem "theme" (host (setLanguages threeLanguages ["fr"; "es"; "de"] m))
  = Some (Some "dark").
Proof.
  intros m.
  rewrite (other_keys_untouched threeLanguages "theme" ["fr"; "es"; "de"] m).
  - reflexivity.
  - discriminate.
Defined.

Lemma reload_restores_witness :
  let m := mount threeLanguages (freshBrowser steadyEngine None) in
  let h2 := returningBrowser steadyEngine None "fr" in
  language (mount threeLanguages h2)
    = language (fst (setLanguage threeLanguages "FR-ca" m)).
Proof.
  intros m h2.
  destruct (reload_restores threeLanguages "FR-ca" m (Some "fr") tt ∅ h2
              eq_refl eq_refl eq_refl eq_refl) as [_ H].
  apply H.
  - reflexivity.
  - simpl. intros [H0|[H0|[H0|[]]]]; discriminate.
Defined.

End StoreMore.
